(** * PsycheScore: the score circuit and its ledger

    A shallow embedding of the Compact contract [psychescore.compact]
    (circuits [computeAndStoreScore], [verifyScore], [updateMLModel] and the
    four ledger declarations) and of [calculateCommitment] from
    [psychescore-mn/src/utils/generateProof.js], followed by the properties
    the specification states about them.

    Conventions of the embedding.
    - A Compact [Field] value is an integer; [+] and [*] on [Field] reduce
      modulo the order [p] of the proving system's scalar field, and [>=],
      [<=], [==] compare the reduced representatives.  The contract does
      not fix [p], so it is a parameter everywhere.
    - The fixed-length arrays [[Field; 50]], [[Field; 4]], [[Field; 54]] are
      lists; a length that the Compact type guarantees appears as a
      hypothesis [length l = n] of the statements that need it.
    - A circuit is a function from the ledger before the call to an
      [Outcome]: either it ran to its end, or an [assert] stopped it.  Both
      carry the ledger as the circuit's own writes have left it, so that
      "a failed call has written nothing" is a theorem about the order of
      the statements and not an assumption about the runtime.
    - A JavaScript Number that holds an integer is that integer, and the
      [+] of Numbers is the exact sum rounded to the nearest binary64
      value ([Number.add]); it is exact while the magnitudes stay within
      [2^53].  A finite integer Number handed to the circuit as a [Field]
      argument is the field element of the same value. *)

From Stdlib Require Import ZArith List Lia Permutation.
From stdpp Require Import gmap list.
Import ListNotations.

Local Open Scope Z_scope.

(** ** Field arithmetic *)

Module Field.

(** [a + b] on [Field]. *)
Definition add (p a b : Z) : Z := (a + b) mod p.

(** [a * b] on [Field]. *)
Definition mul (p a b : Z) : Z := (a * b) mod p.

(** The canonical representatives, which is what a well-formed [Field]
    argument is. *)
Definition canonical (p a : Z) : Prop := 0 <= a < p.

(** The order of the BLS12-381 scalar field, used where a statement is
    instantiated at a concrete field. *)
Definition bls12_381_order : Z :=
  52435875175126190479447740508185965837690552500527637822603658699938581184513.

End Field.

(** ** Ledger *)

(** [Address]: a fixed-width key, read as the number it encodes. *)
Abbreviation Address := N.

(** The four [export ledger] declarations of the contract. *)
Record Ledger : Type := mkLedger {
  user_scores       : gmap N Z;
  score_commitments : gmap N Z;
  ml_model_hash     : Z;
  survey_responses  : gmap N (list Byte.byte)
}.

(** The ledger of a freshly deployed contract: empty maps, default cell. *)
Definition initial_ledger : Ledger :=
  {| user_scores := ∅; score_commitments := ∅;
     ml_model_hash := 0; survey_responses := ∅ |}.

(** ** Circuits as ledger transformers that may stop at an assertion *)

(** The reasons an invocation is rejected (specification, error taxonomy).
    The contract's [assert]s carry no message; each is tagged with the
    reason the specification names for it. *)
Inductive Failure : Type :=
| RangeError
| CommitmentMismatch
| ShapeError.

Inductive Outcome (A : Type) : Type :=
| Done  (a : A) (after : Ledger)
| Abort (why : Failure) (after : Ledger).
Arguments Done {A} a after.
Arguments Abort {A} why after.

Definition Circuit (A : Type) : Type := Ledger -> Outcome A.

Definition ret {A} (a : A) : Circuit A := fun st => Done a st.

Definition bind {A B} (m : Circuit A) (k : A -> Circuit B) : Circuit B :=
  fun st =>
    match m st with
    | Done a st' => k a st'
    | Abort e st' => Abort e st'
    end.

Notation "x <- m ;; k" := (bind m (fun x => k))
  (at level 100, m at next level, right associativity).
Notation "m ;; k" := (bind m (fun _ => k))
  (at level 100, right associativity).

(** [assert(cond)], tagged with the failure it stands for. *)
Definition assert (cond : bool) (why : Failure) : Circuit unit :=
  fun st => if cond then Done tt st else Abort why st.

(** [user_scores[a] = v] *)
Definition write_user_scores (a : Address) (v : Z) : Circuit unit :=
  fun st => Done tt
    {| user_scores := <[a := v]> (user_scores st);
       score_commitments := score_commitments st;
       ml_model_hash := ml_model_hash st;
       survey_responses := survey_responses st |}.

(** [score_commitments[a] = v] *)
Definition write_score_commitments (a : Address) (v : Z) : Circuit unit :=
  fun st => Done tt
    {| user_scores := user_scores st;
       score_commitments := <[a := v]> (score_commitments st);
       ml_model_hash := ml_model_hash st;
       survey_responses := survey_responses st |}.

(** [ml_model_hash = v] *)
Definition write_ml_model_hash (v : Z) : Circuit unit :=
  fun st => Done tt
    {| user_scores := user_scores st;
       score_commitments := score_commitments st;
       ml_model_hash := v;
       survey_responses := survey_responses st |}.

(** [user_scores[a]] as a read.  Modelled from the spec: the contract does
    not say what the read yields for a key that was never written; the
    specification calls it an absent score, equal to no expected score. *)
Definition read_user_scores (a : Address) : Circuit (option Z) :=
  fun st => Done (user_scores st !! a) st.

Definition outcome_ledger {A} (o : Outcome A) : Ledger :=
  match o with Done _ st => st | Abort _ st => st end.

(** ** The contract *)

Section Contract.

Variable p : Z.

(** The cast [Opaque<"uint32">(x)]: the low 32 bits. *)
Definition as_uint32 (x : Z) : Z := x mod 2 ^ 32.

(** Lines 92-102 of the contract: the accumulator starts at the bias and
    takes the fifty survey terms, then the four feature terms, in index
    order. *)
Definition computed_score
    (encrypted_responses koios_features ml_model_weights : list Z)
    (ml_model_bias : Z) : Z :=
  let computed_score := ml_model_bias in
  let computed_score :=
    fold_left
      (fun computed_score i =>
         Field.add p computed_score
           (Field.mul p (nth i encrypted_responses 0)
                        (nth i ml_model_weights 0)))
      (seq 0 50) computed_score in
  fold_left
    (fun computed_score i =>
       Field.add p computed_score
         (Field.mul p (nth i koios_features 0)
                      (nth (50 + i) ml_model_weights 0)))
    (seq 0 4) computed_score.

(** Lines 109-112: the sum of the fifty responses. *)
Definition calculated_commitment (encrypted_responses : list Z) : Z :=
  fold_left
    (fun calculated_commitment i =>
       Field.add p calculated_commitment (nth i encrypted_responses 0))
    (seq 0 50) 0.

(** [export circuit computeAndStoreScore]. *)
Definition computeAndStoreScore
    (encrypted_responses koios_features ml_model_weights : list Z)
    (ml_model_bias : Z) (wallet_address : Address)
    (response_commitment : Z) : Circuit unit :=
  let score :=
    computed_score encrypted_responses koios_features ml_model_weights
      ml_model_bias in
  assert (0 <=? score) RangeError ;;
  assert (score <=? 100) RangeError ;;
  assert (calculated_commitment encrypted_responses =? response_commitment)
    CommitmentMismatch ;;
  write_user_scores wallet_address (as_uint32 score) ;;
  write_score_commitments wallet_address response_commitment.

(** [export circuit verifyScore].  A wallet without a stored score has
    nothing that could equal [expected_score]. *)
Definition verifyScore (wallet_address : Address) (expected_score : Z)
  : Circuit bool :=
  stored_score <- read_user_scores wallet_address ;;
  ret (bool_decide (stored_score = Some expected_score)).

(** [export circuit updateMLModel].  The body holds two comments and one
    assignment; the signature is not examined. *)
Definition updateMLModel (new_model_hash admin_signature : Z)
  : Circuit unit :=
  write_ml_model_hash new_model_hash.

End Contract.

(** ** JavaScript Numbers that hold integers *)

Module Number.

(** A JavaScript Number is an IEEE 754 binary64 value.  The responses that
    generateProof.js adds up are integers, and so is every partial sum of
    them; such a Number is modelled by the integer it holds.  A sum that
    leaves the finite range is one of the two infinities. *)
Inductive t : Type :=
| Finite (z : Z)
| PlusInfinity
| MinusInfinity.

(** The binary64 value nearest to the integer [x], a tie going to the even
    significand.  Every integer of magnitude up to [2^53] is a value; a
    larger magnitude [a] keeps a significand [q] of 53 bits, counted in
    units of [ulp = 2^(log2 a - 52)]. *)
Definition round (x : Z) : Z :=
  let a := Z.abs x in
  if a <=? 2 ^ 53 then x
  else
    let ulp := 2 ^ (Z.log2 a - 52) in
    let q := a / ulp in
    let rest := a mod ulp in
    let q' :=
      if 2 * rest <? ulp then q
      else if ulp <? 2 * rest then q + 1
      else if Z.even q then q else q + 1 in
    Z.sgn x * (q' * ulp).

(** [Number.MAX_VALUE], the largest finite value. *)
Definition MAX_VALUE : Z := (2 ^ 53 - 1) * 2 ^ 971.


(** [a + b] for a Number [a] and an integer Number [b]: the exact sum,
    rounded once; past [MAX_VALUE] the result is an infinity, and an
    infinity plus a finite Number is that infinity. *)
Definition add (a : t) (b : Z) : t :=
  match a with
  | Finite x =>
      let s := round (x + b) in
      if MAX_VALUE <? s then PlusInfinity
      else if s <? - MAX_VALUE then MinusInfinity
      else Finite s
  | PlusInfinity => PlusInfinity
  | MinusInfinity => MinusInfinity
  end.

End Number.


(** ** The formula of the specification *)

(** [acc + Σ xs[i]*ws[i]], summed from the left in [Field] arithmetic. *)
Definition weighted_sum (p acc : Z) (xs ws : list Z) : Z :=
  fold_left (fun acc xw => Field.add p acc (Field.mul p xw.1 xw.2))
            (zip xs ws) acc.

(** [bias + Σ_{i=0..49} responses[i]*weights[i]
          + Σ_{j=0..3} features[j]*weights[50+j]], left to right. *)
Definition score_formula (p : Z) (weights : list Z) (bias : Z)
    (responses features : list Z) : Z :=
  weighted_sum p (weighted_sum p bias responses (take 50 weights))
               features (drop 50 weights).

(** The same sum over the integers, without any reduction. *)
Definition dot (xs ws : list Z) : Z :=
  foldr Z.add 0 (zip_with Z.mul xs ws).

Definition score_integer (weights : list Z) (bias : Z)
    (responses features : list Z) : Z :=
  bias + dot responses (take 50 weights) + dot features (drop 50 weights).

(** ** Observing the ledger *)

Inductive State : Type := VACANT | OCCUPIED.

Record LedgerEntry : Type := mkEntry {
  status     : State;
  score      : option Z;
  commitment : option Z
}.

(** Modelled from the spec: [LedgerStore.get], the per-identity view of the
    two maps; the contract has no such circuit.  An identity is [OCCUPIED]
    once a score is stored for it. *)
Definition get (st : Ledger) (identity : Address) : LedgerEntry :=
  {| status := match user_scores st !! identity with
               | Some _ => OCCUPIED
               | None => VACANT
               end;
     score := user_scores st !! identity;
     commitment := score_commitments st !! identity |}.

(** ** Invocations and histories *)

(** The argument record [surveyData] built in generateProof.js. *)
Record SurveyData : Type := mkSurveyData {
  encrypted_responses : list Z;
  koios_features      : list Z;
  ml_model_weights    : list Z;
  ml_model_bias       : Z;
  wallet_address      : Address;
  response_commitment : Z
}.

Definition computeAndStoreScore_on (p : Z) (d : SurveyData) : Circuit unit :=
  computeAndStoreScore p (encrypted_responses d) (koios_features d)
    (ml_model_weights d) (ml_model_bias d) (wallet_address d)
    (response_commitment d).

Inductive Call : Type :=
| CallComputeAndStoreScore (d : SurveyData)
| CallVerifyScore (wallet : Address) (expected_score : Z)
| CallUpdateMLModel (new_model_hash admin_signature : Z).

(** A transaction is kept when its circuit ran to the end and dropped when
    an assertion stopped it. *)
Definition commit {A} (before : Ledger) (o : Outcome A) : Ledger :=
  match o with
  | Done _ after => after
  | Abort _ _ => before
  end.

Definition invoke (p : Z) (c : Call) (st : Ledger) : Ledger :=
  match c with
  | CallComputeAndStoreScore d => commit st (computeAndStoreScore_on p d st)
  | CallVerifyScore a s => commit st (verifyScore a s st)
  | CallUpdateMLModel h sig => commit st (updateMLModel h sig st)
  end.

Definition run (p : Z) (calls : list Call) (st : Ledger) : Ledger :=
  fold_left (fun st c => invoke p c st) calls st.

(** The range invariant of the ledger. *)
Definition scores_in_range (st : Ledger) : Prop :=
  forall (a : Address) (s : Z), user_scores st !! a = Some s -> 0 <= s <= 100.

(** The score that the latest successful [computeAndStoreScore] for
    [wallet] computed and stored, threaded through a history that starts
    in [st] with [last] as the answer so far. *)
Fixpoint most_recent_score (p : Z) (wallet : Address) (calls : list Call)
    (st : Ledger) (last : option Z) : option Z :=
  match calls with
  | [] => last
  | c :: calls' =>
      let last' :=
        match c with
        | CallComputeAndStoreScore d =>
            match computeAndStoreScore_on p d st with
            | Done _ _ =>
                if bool_decide (wallet_address d = wallet)
                then Some (as_uint32
                             (computed_score p (encrypted_responses d)
                                (koios_features d) (ml_model_weights d)
                                (ml_model_bias d)))
                else last
            | Abort _ _ => last
            end
        | _ => last
        end in
      most_recent_score p wallet calls' (invoke p c st) last'
  end.

(** ** Shape validation at the entry point *)

Definition well_shaped (responses features weights : list Z) : bool :=
  bool_decide (length responses = 50%nat)
  && bool_decide (length features = 4%nat)
  && bool_decide (length weights = 54%nat).

(** Modelled from the spec: the dispatch entry point for
    [computeAndStoreScore], which rejects vectors whose lengths are not
    50/4/54 with [ShapeError] before anything else happens.  In the
    contract the lengths are part of the parameter types; the run-time
    check belongs to the generated entry point, which is not among the
    sources. *)
Definition dispatch_computeAndStoreScore (p : Z) (d : SurveyData)
  : Circuit unit :=
  fun st =>
    if well_shaped (encrypted_responses d) (koios_features d)
                   (ml_model_weights d)
    then computeAndStoreScore_on p d st
    else Abort ShapeError st.

(** ** Loops over indices and folds over lists *)

Section IndexLoops.

Context {A B : Type}.

(** A [for i in k..k+n] loop whose body uses [i] only through [h i]. *)
Lemma fold_left_indices (F : B -> A -> B) (h : nat -> A) (n k : nat) (a : B) :
  fold_left (fun acc i => F acc (h i)) (seq k n) a
  = fold_left F (map h (seq k n)) a.
Proof.
  revert k a. induction n as [|n IH]; intros k a; simpl; [reflexivity|].
  apply IH.
Qed.

(** Reading every index of a list in turn gives the list back. *)
Lemma map_nth_seq_all (d : A) (l : list A) :
  map (fun i => nth i l d) (seq 0 (length l)) = l.
Proof.
  induction l as [|x l IH]; simpl; [reflexivity|].
  f_equal. rewrite <- seq_shift, map_map. exact IH.
Qed.

(** Reading from offset [k] onwards gives the list without its first [k]. *)
Lemma map_nth_seq_drop (d : A) (k : nat) (l : list A) :
  map (fun i => nth (k + i) l d) (seq 0 (length l - k)) = drop k l.
Proof.
  revert l. induction k as [|k IH]; intros l; simpl.
  - rewrite Nat.sub_0_r. apply map_nth_seq_all.
  - destruct l as [|x l]; simpl; [reflexivity|]. apply IH.
Qed.

(** Reading the first [n] indices gives the first [n] elements. *)
Lemma map_nth_seq_take (d : A) (n : nat) (l : list A) :
  (n <= length l)%nat ->
  map (fun i => nth i l d) (seq 0 n) = take n l.
Proof.
  revert l. induction n as [|n IH]; intros l Hn; simpl; [reflexivity|].
  destruct l as [|x l]; simpl in *; [lia|].
  f_equal. rewrite <- seq_shift, map_map. apply IH. lia.
Qed.

End IndexLoops.

(** Two index loops read in step are one loop over the zipped lists. *)
Lemma map_pair_zip {A B} (f : nat -> A) (g : nat -> B) (l : list nat) :
  map (fun i => (f i, g i)) l = zip (map f l) (map g l).
Proof. induction l as [|i l IH]; simpl; [reflexivity|]. now rewrite IH. Qed.

(** ** Modular sums *)

Section FieldSums.

Variable p : Z.

Lemma add_reduced a b : Field.add p a b mod p = Field.add p a b.
Proof. unfold Field.add. apply Zmod_mod. Qed.

(** The left-to-right weighted sum is the integer sum, reduced. *)
Lemma weighted_sum_mod xs : forall ws acc,
  weighted_sum p acc xs ws mod p = (acc + dot xs ws) mod p.
Proof.
  unfold weighted_sum, dot.
  induction xs as [|x xs IH]; intros ws acc; simpl.
  - now rewrite Z.add_0_r.
  - destruct ws as [|w ws]; simpl.
    + now rewrite Z.add_0_r.
    + rewrite IH. unfold Field.add, Field.mul.
      set (D := foldr Z.add 0 (zip_with Z.mul xs ws)).
      rewrite Zplus_mod_idemp_l.
      replace (acc + (x * w) mod p + D) with ((x * w) mod p + (acc + D))
        by lia.
      rewrite Zplus_mod_idemp_l. f_equal. lia.
Qed.

(** After at least one step the accumulator is a reduced value. *)
Lemma weighted_sum_reduced xs ws acc :
  xs <> [] -> ws <> [] ->
  weighted_sum p acc xs ws mod p = weighted_sum p acc xs ws.
Proof.
  destruct xs as [|x xs]; [congruence|]. destruct ws as [|w ws]; [congruence|].
  intros _ _. unfold weighted_sum. simpl.
  generalize (zip xs ws) as l. generalize (Field.mul p x w) as t.
  intros t l. revert acc t.
  induction l as [|[y v] l IH]; intros acc t; simpl.
  - apply add_reduced.
  - apply IH.
Qed.


Lemma field_sum_reduced l acc :
  l <> [] -> fold_left (Field.add p) l acc mod p = fold_left (Field.add p) l acc.
Proof.
  destruct l as [|x l]; [congruence|]. intros _. simpl.
  revert acc x. induction l as [|y l IH]; intros acc x; simpl.
  - apply add_reduced.
  - apply IH.
Qed.

End FieldSums.

(** ** Sums of Numbers *)







(** ** The circuit, statement by statement *)

Section CircuitFacts.

Variable p : Z.

(** The score loop of the contract is the weighted sum of the
    specification, once the vectors have their declared lengths. *)
Lemma computed_score_formula (r f w : list Z) (b : Z) :
  length r = 50%nat -> length f = 4%nat -> length w = 54%nat ->
  computed_score p r f w b = score_formula p w b r f.
Proof.
  intros Hr Hf Hw. unfold computed_score, score_formula, weighted_sum.
  rewrite (fold_left_indices
             (fun acc xw => Field.add p acc (Field.mul p xw.1 xw.2))
             (fun i => (nth i r 0, nth i w 0))).
  rewrite (fold_left_indices
             (fun acc xw => Field.add p acc (Field.mul p xw.1 xw.2))
             (fun i => (nth i f 0, nth (50 + i) w 0))).
  rewrite !map_pair_zip.
  assert (Er : map (fun i => nth i r 0) (seq 0 50) = r)
    by (rewrite <- Hr; apply map_nth_seq_all).
  assert (Ef : map (fun i => nth i f 0) (seq 0 4) = f)
    by (rewrite <- Hf; apply map_nth_seq_all).
  assert (Ew : map (fun i => nth (50 + i) w 0) (seq 0 4) = drop 50 w)
    by (rewrite <- (map_nth_seq_drop 0 50 w), Hw; reflexivity).
  rewrite Er, Ef, Ew, (map_nth_seq_take 0 50 w) by lia.
  reflexivity.
Qed.

(** In the field, that sum is the integer sum modulo [p]. *)
Lemma score_formula_integer (r f w : list Z) (b : Z) :
  length r = 50%nat -> length f = 4%nat -> length w = 54%nat ->
  score_formula p w b r f = score_integer w b r f mod p.
Proof.
  intros Hr Hf Hw. unfold score_formula, score_integer.
  rewrite <- weighted_sum_reduced.
  - rewrite weighted_sum_mod, <- Zplus_mod_idemp_l, weighted_sum_mod.
    rewrite Zplus_mod_idemp_l. reflexivity.
  - intros ->. discriminate.
  - intros E. apply (f_equal length) in E. rewrite length_drop in E.
    simpl in E. lia.
Qed.



Lemma as_uint32_small (s : Z) : 0 <= s <= 100 -> as_uint32 s = s.
Proof. intros H. unfold as_uint32. apply Z.mod_small. lia. Qed.

(** The three outcomes of [computeAndStoreScore], in the order in which
    the contract reaches them. *)
Lemma computeAndStoreScore_cases (r f w : list Z) (b : Z) (a : Address)
    (c : Z) (st : Ledger) :
  computeAndStoreScore p r f w b a c st =
  if (0 <=? computed_score p r f w b) && (computed_score p r f w b <=? 100)
  then
    if calculated_commitment p r =? c
    then Done tt
           {| user_scores :=
                <[a := as_uint32 (computed_score p r f w b)]> (user_scores st);
              score_commitments := <[a := c]> (score_commitments st);
              ml_model_hash := ml_model_hash st;
              survey_responses := survey_responses st |}
    else Abort CommitmentMismatch st
  else Abort RangeError st.
Proof.
  unfold computeAndStoreScore, bind, assert, write_user_scores,
    write_score_commitments.
  cbv zeta.
  destruct (0 <=? computed_score p r f w b);
    destruct (computed_score p r f w b <=? 100);
    destruct (calculated_commitment p r =? c); reflexivity.
Qed.

Lemma in_range_iff (s : Z) :
  (0 <=? s) && (s <=? 100) = true <-> 0 <= s <= 100.
Proof. rewrite andb_true_iff, !Z.leb_le. reflexivity. Qed.

End CircuitFacts.

(** ** Properties of the score stage *)

(** C1.  For responses of length 50, features of length 4 and weights of
    length 54, the score that [computeAndStoreScore] computes is exactly
    [bias + Σ responses[i]*weights[i] + Σ features[j]*weights[50+j]],
    accumulated from the left in index order in the circuit's [Field]
    arithmetic (that is, the integer sum modulo the field order).  When
    this value lies in [0,100] and the commitment check passes, it is the
    value stored for the wallet, unchanged; when it lies outside [0,100]
    the invocation stops with [RangeError] whatever the commitment is, and
    the ledger is as before: no clamped or corrected score is stored. *)
Theorem score_circuit_computes_formula (p : Z) (r f w : list Z) (b : Z) :
  length r = 50%nat -> length f = 4%nat -> length w = 54%nat ->
  computed_score p r f w b = score_formula p w b r f
  /\ score_formula p w b r f = score_integer w b r f mod p
  /\ (0 <= score_formula p w b r f <= 100 ->
      forall (a : Address) (st : Ledger),
      exists st',
        computeAndStoreScore p r f w b a (calculated_commitment p r) st
          = Done tt st'
        /\ user_scores st' !! a = Some (score_formula p w b r f))
  /\ (~ 0 <= score_formula p w b r f <= 100 ->
      forall (a : Address) (c : Z) (st : Ledger),
        computeAndStoreScore p r f w b a c st = Abort RangeError st).
Proof.
  intros Hr Hf Hw.
  pose proof (computed_score_formula p r f w b Hr Hf Hw) as Hs.
  split; [exact Hs|]. split; [now apply score_formula_integer|]. split.
  - intros Hin a st. rewrite computeAndStoreScore_cases, Hs.
    rewrite (proj2 (in_range_iff _) Hin), Z.eqb_refl.
    eexists. split; [reflexivity|]. simpl.
    rewrite lookup_insert_eq, as_uint32_small by exact Hin. reflexivity.
  - intros Hout a c st. rewrite computeAndStoreScore_cases, Hs.
    destruct ((0 <=? score_formula p w b r f)
              && (score_formula p w b r f <=? 100)) eqn:E; [|reflexivity].
    apply in_range_iff in E. contradiction.
Qed.

Lemma score_circuit_computes_formula_witness :
  computed_score Field.bls12_381_order
    (repeat 1 50) (repeat 2 4) (repeat 1 54) 2 = 60
  /\ computeAndStoreScore Field.bls12_381_order
       (repeat 1 50) (repeat 2 4) (repeat 1 54) 43 7%N 50 initial_ledger
     = Abort RangeError initial_ledger.
Proof.
  split.
  - rewrite (proj1 (score_circuit_computes_formula Field.bls12_381_order
                      (repeat 1 50) (repeat 2 4) (repeat 1 54) 2
                      eq_refl eq_refl eq_refl)).
    vm_compute. reflexivity.
  - apply (score_circuit_computes_formula Field.bls12_381_order
             (repeat 1 50) (repeat 2 4) (repeat 1 54) 43
             eq_refl eq_refl eq_refl).
    vm_compute. intros [_ H]. apply H. reflexivity.
Defined.

(** ** Failure leaves the ledger alone *)

(** C2.  Whenever [computeAndStoreScore] stops at an assertion, the reason
    is [RangeError] or [CommitmentMismatch], and the ledger it leaves is
    the ledger it was given: every identity has the entry it had before
    (a [VACANT] identity is still [VACANT], an [OCCUPIED] one keeps its
    score/commitment pair), and the history continues from that ledger. *)
Theorem failed_invocation_leaves_ledger (p : Z) (d : SurveyData)
    (st st' : Ledger) (e : Failure) :
  computeAndStoreScore_on p d st = Abort e st' ->
  st' = st
  /\ (e = RangeError \/ e = CommitmentMismatch)
  /\ (forall identity, get st' identity = get st identity)
  /\ invoke p (CallComputeAndStoreScore d) st = st.
Proof.
  unfold invoke, computeAndStoreScore_on. intros H. rewrite H. simpl.
  rewrite computeAndStoreScore_cases in H.
  destruct (_ && _) in H; [destruct (_ =? _) in H|];
    inversion H; subst; auto 6.
Qed.

Lemma failed_invocation_leaves_ledger_witness :
  computeAndStoreScore_on Field.bls12_381_order
    (mkSurveyData (repeat 1 50) (repeat 0 4) (repeat 0 54) 50 7%N 49)
    initial_ledger
  = Abort CommitmentMismatch initial_ledger
  /\ invoke Field.bls12_381_order
       (CallComputeAndStoreScore
          (mkSurveyData (repeat 1 50) (repeat 0 4) (repeat 0 54) 50 7%N 49))
       initial_ledger
     = initial_ledger.
Proof.
  assert (H : computeAndStoreScore_on Field.bls12_381_order
                (mkSurveyData (repeat 1 50) (repeat 0 4) (repeat 0 54) 50 7%N 49)
                initial_ledger
              = Abort CommitmentMismatch initial_ledger)
    by (vm_compute; reflexivity).
  split; [exact H|].
  apply (failed_invocation_leaves_ledger _ _ _ _ _ H).
Defined.

(** ** The range invariant *)

Lemma invoke_keeps_scores_in_range (p : Z) (c : Call) (st : Ledger) :
  scores_in_range st -> scores_in_range (invoke p c st).
Proof.
  intros Hst. destruct c as [d | a s | h sig]; cbn [invoke].
  - unfold computeAndStoreScore_on. rewrite computeAndStoreScore_cases.
    destruct (_ && _) eqn:E; [destruct (_ =? _)|]; cbn [commit]; auto.
    apply in_range_iff in E. intros a s. cbn [user_scores].
    rewrite lookup_insert. case_decide.
    + intros [= <-]. now rewrite as_uint32_small.
    + apply Hst.
  - exact Hst.
  - exact Hst.
Qed.

Lemma run_keeps_scores_in_range (p : Z) (calls : list Call) :
  forall st, scores_in_range st -> scores_in_range (run p calls st).
Proof.
  unfold run. induction calls as [|c calls IH]; intros st Hst; simpl.
  - exact Hst.
  - apply IH, invoke_keeps_scores_in_range, Hst.
Qed.

(** C4.  In every ledger reached from the initial, all-[VACANT] ledger by
    any sequence of [computeAndStoreScore], [verifyScore] and
    [updateMLModel] invocations, with any arguments at all, every stored
    score [s] satisfies [0 <= s <= 100]. *)
Theorem stored_scores_in_range (p : Z) (calls : list Call) (a : Address)
    (s : Z) :
  user_scores (run p calls initial_ledger) !! a = Some s -> 0 <= s <= 100.
Proof.
  apply run_keeps_scores_in_range. intros a' s'. cbn [initial_ledger user_scores]. now rewrite lookup_empty.
Qed.

Lemma stored_scores_in_range_witness :
  user_scores
    (run Field.bls12_381_order
       [CallComputeAndStoreScore
          (mkSurveyData (repeat 1 50) (repeat 2 4) (repeat 1 54) 2 7%N 50);
        CallUpdateMLModel 11 0;
        CallComputeAndStoreScore
          (mkSurveyData (repeat 1 50) (repeat 2 4) (repeat 1 54) 43 7%N 50)]
       initial_ledger) !! 7%N = Some 60
  /\ 0 <= 60 <= 100.
Proof.
  assert (H : user_scores
    (run Field.bls12_381_order
       [CallComputeAndStoreScore
          (mkSurveyData (repeat 1 50) (repeat 2 4) (repeat 1 54) 2 7%N 50);
        CallUpdateMLModel 11 0;
        CallComputeAndStoreScore
          (mkSurveyData (repeat 1 50) (repeat 2 4) (repeat 1 54) 43 7%N 50)]
       initial_ledger) !! 7%N = Some 60)
    by (vm_compute; reflexivity).
  split; [exact H|]. exact (stored_scores_in_range _ _ _ _ H).
Defined.

(** ** The order of the checks *)

(** C5, as the specification states it, fails: the contract asserts the
    range of the score before it looks at the commitment, so an invocation
    whose commitment mismatches (the responses sum to 50, the supplied
    commitment is 49) and whose score is out of range (bias 101, all
    weights 0) stops with [RangeError]. *)
Lemma commitment_checked_first_counterexample :
  calculated_commitment Field.bls12_381_order (repeat 1 50) <> 49
  /\ computeAndStoreScore Field.bls12_381_order
       (repeat 1 50) (repeat 0 4) (repeat 0 54) 101 7%N 49 initial_ledger
     = Abort RangeError initial_ledger
  /\ RangeError <> CommitmentMismatch.
Proof.
  split; [vm_compute; discriminate|].
  split; [vm_compute; reflexivity|discriminate].
Qed.

(** C5, amended.  [computeAndStoreScore] computes the score and asserts its
    range first, then checks the commitment, then writes the ledger.  For
    any input whose commitment mismatches, the invocation stops before the
    ledger write with the ledger untouched: with [RangeError] when the
    score is outside [0,100], and with [CommitmentMismatch] otherwise. *)
Theorem mismatch_stops_before_ledger_write (p : Z) (r f w : list Z) (b : Z)
    (a : Address) (c : Z) (st : Ledger) :
  calculated_commitment p r <> c ->
  computeAndStoreScore p r f w b a c st
  = Abort (if (0 <=? computed_score p r f w b)
              && (computed_score p r f w b <=? 100)
           then CommitmentMismatch else RangeError) st.
Proof.
  intros Hc. rewrite computeAndStoreScore_cases.
  destruct (_ && _); [|reflexivity].
  destruct (Z.eqb_spec (calculated_commitment p r) c); [contradiction|].
  reflexivity.
Qed.

Lemma mismatch_stops_before_ledger_write_witness :
  computeAndStoreScore Field.bls12_381_order
    (repeat 1 50) (repeat 0 4) (repeat 0 54) 50 7%N 49 initial_ledger
  = Abort CommitmentMismatch initial_ledger.
Proof.
  rewrite (mismatch_stops_before_ledger_write Field.bls12_381_order
             (repeat 1 50) (repeat 0 4) (repeat 0 54) 50 7%N 49
             initial_ledger).
  - vm_compute. reflexivity.
  - vm_compute. discriminate.
Defined.

(** ** The commitment *)



Lemma calculated_commitment_canonical (p : Z) (r : list Z) :
  0 < p -> Field.canonical p (calculated_commitment p r).
Proof.
  intros Hp. unfold calculated_commitment.
  rewrite (fold_left_indices (Field.add p) (fun i => nth i r 0)).
  rewrite <- field_sum_reduced by discriminate.
  apply Z.mod_pos_bound, Hp.
Qed.












(** ** Reading a score back *)

(** Along any history, the score stored for a wallet is the one that the
    latest successful [computeAndStoreScore] for that wallet stored. *)
Lemma user_scores_most_recent (p : Z) (wallet : Address) (calls : list Call) :
  forall (st : Ledger) (last : option Z),
    user_scores st !! wallet = last ->
    user_scores (run p calls st) !! wallet
    = most_recent_score p wallet calls st last.
Proof.
  unfold run.
  induction calls as [|c calls IH]; intros st last Hst;
    cbn [fold_left most_recent_score]; [exact Hst|].
  apply IH. destruct c as [d | a s | h sig]; cbn [invoke].
  - unfold computeAndStoreScore_on. rewrite computeAndStoreScore_cases.
    destruct (_ && _); [destruct (_ =? _)|]; cbn [commit]; try exact Hst.
    cbn [user_scores]. rewrite lookup_insert.
    case_decide; case_bool_decide; congruence.
  - exact Hst.
  - exact Hst.
Qed.

(** C7.  In the ledger reached by any history from the initial ledger,
    [verifyScore identity expectedScore] returns the ledger it was given,
    unchanged, together with [true] exactly when the latest successful
    [computeAndStoreScore] for that identity stored [expectedScore]; the
    identity is [OCCUPIED] exactly when there was such an invocation, and
    for an identity never successfully written the answer is [false] for
    every [expectedScore]. *)
Theorem verifyScore_reads_most_recent (p : Z) (calls : list Call)
    (identity : Address) (expectedScore : Z) :
  verifyScore identity expectedScore (run p calls initial_ledger)
  = Done (bool_decide
            (most_recent_score p identity calls initial_ledger None
             = Some expectedScore))
         (run p calls initial_ledger)
  /\ (status (get (run p calls initial_ledger) identity) = OCCUPIED
      <-> is_Some (most_recent_score p identity calls initial_ledger None))
  /\ (most_recent_score p identity calls initial_ledger None = None ->
      status (get (run p calls initial_ledger) identity) = VACANT
      /\ forall s : Z,
           verifyScore identity s (run p calls initial_ledger)
           = Done false (run p calls initial_ledger)).
Proof.
  pose proof (user_scores_most_recent p identity calls initial_ledger None
                (lookup_empty identity)) as H.
  unfold verifyScore, bind, read_user_scores, ret, get. cbn [status].
  rewrite H. split; [reflexivity|]. split.
  - destruct (most_recent_score _ _ _ _ _); split;
      intros H'; try done; by destruct H'.
  - intros ->. split; [reflexivity|]. intros s. reflexivity.
Qed.

(** ** Shape validation *)

(** C8.  The entry point for [computeAndStoreScore] rejects an invocation
    whose responses do not have length 50, or whose features do not have
    length 4, or whose weights do not have length 54, with [ShapeError];
    the ledger is the one it was given, and the circuit is not run. *)
Theorem dispatch_rejects_wrong_shape (p : Z) (d : SurveyData) (st : Ledger) :
  length (encrypted_responses d) <> 50%nat
  \/ length (koios_features d) <> 4%nat
  \/ length (ml_model_weights d) <> 54%nat ->
  dispatch_computeAndStoreScore p d st = Abort ShapeError st.
Proof.
  intros H. unfold dispatch_computeAndStoreScore, well_shaped.
  repeat case_bool_decide; cbn [andb]; try reflexivity.
  destruct H as [H | [H | H]]; contradiction.
Qed.

Lemma dispatch_rejects_wrong_shape_witness :
  dispatch_computeAndStoreScore Field.bls12_381_order
    (mkSurveyData (repeat 3 20) (repeat 0 4) (repeat 0 54) 50 7%N 60)
    initial_ledger
  = Abort ShapeError initial_ledger.
Proof.
  apply dispatch_rejects_wrong_shape. left. cbn. discriminate.
Defined.

(** ** What a successful invocation writes *)

(** C9.  A successful [computeAndStoreScore] for a wallet yields the
    ledger it was given with that wallet's [user_scores] entry set to the
    computed score and that wallet's [score_commitments] entry set to the
    supplied commitment, and nothing else: the entries of every other
    wallet, [ml_model_hash] and [survey_responses] are as before.  The two
    values written are a score in [0,100] and the commitment; responses,
    features and weights reach the ledger through nothing else, since any
    other arguments with the same score and the same commitment produce
    this very ledger. *)
Theorem successful_store_frame (p : Z) (r f w : list Z) (b : Z)
    (a : Address) (c : Z) (st st' : Ledger) :
  computeAndStoreScore p r f w b a c st = Done tt st' ->
  st' = {| user_scores := <[a := computed_score p r f w b]> (user_scores st);
           score_commitments := <[a := c]> (score_commitments st);
           ml_model_hash := ml_model_hash st;
           survey_responses := survey_responses st |}
  /\ 0 <= computed_score p r f w b <= 100
  /\ c = calculated_commitment p r
  /\ (forall a' : Address, a' <> a ->
        user_scores st' !! a' = user_scores st !! a'
        /\ score_commitments st' !! a' = score_commitments st !! a'
        /\ get st' a' = get st a')
  /\ ml_model_hash st' = ml_model_hash st
  /\ survey_responses st' = survey_responses st
  /\ (forall (r2 f2 w2 : list Z) (b2 : Z),
        computed_score p r2 f2 w2 b2 = computed_score p r f w b ->
        calculated_commitment p r2 = c ->
        computeAndStoreScore p r2 f2 w2 b2 a c st = Done tt st').
Proof.
  intros H. rewrite computeAndStoreScore_cases in H.
  destruct (_ && _) eqn:E in H; [|discriminate].
  destruct (Z.eqb_spec (calculated_commitment p r) c) as [Hc|] in H;
    [|discriminate].
  apply in_range_iff in E. rewrite as_uint32_small in H by exact E.
  injection H as <-. cbn [user_scores score_commitments ml_model_hash
                          survey_responses].
  split; [reflexivity|]. split; [exact E|]. split; [now symmetry|].
  split.
  - intros a' Hne. unfold get. cbn [user_scores score_commitments].
    rewrite !lookup_insert_ne by congruence. auto.
  - split; [reflexivity|]. split; [reflexivity|].
    intros r2 f2 w2 b2 Hs Hc2. rewrite computeAndStoreScore_cases, Hs, Hc2.
    rewrite (proj2 (in_range_iff _) E), Z.eqb_refl.
    rewrite as_uint32_small by exact E. reflexivity.
Qed.

Lemma successful_store_frame_witness :
  computeAndStoreScore Field.bls12_381_order
    (repeat 1 50) (repeat 2 4) (repeat 1 54) 2 7%N 50 initial_ledger
  = Done tt {| user_scores := <[7%N := 60]> ∅;
               score_commitments := <[7%N := 50]> ∅;
               ml_model_hash := 0;
               survey_responses := ∅ |}
  /\ survey_responses
       {| user_scores := <[7%N := 60]> ∅;
          score_commitments := <[7%N := 50]> ∅;
          ml_model_hash := 0;
          survey_responses := ∅ |} = ∅.
Proof.
  assert (H : computeAndStoreScore Field.bls12_381_order
                (repeat 1 50) (repeat 2 4) (repeat 1 54) 2 7%N 50
                initial_ledger
              = Done tt {| user_scores := <[7%N := 60]> ∅;
                           score_commitments := <[7%N := 50]> ∅;
                           ml_model_hash := 0;
                           survey_responses := ∅ |})
    by (vm_compute; reflexivity).
  split; [exact H|].
  destruct (successful_store_frame _ _ _ _ _ _ _ _ _ H)
    as (_ & _ & _ & _ & _ & Hsr & _).
  exact Hsr.
Defined.
